(** * kurobako-go: the solver runner (solver.go)

    A shallow embedding of [SolverRunner]: the line-oriented dispatcher that
    announces a solver's specification, keeps a registry of solver instances
    keyed by a [uint64] id, and serves ask/tell calls.

    Conventions.
    - A Go [uint64] or [int64] is a [Z]; conversions and wrap-around are
      written out ([int64_of_uint64], [uint64_wrap]).
    - A Go [error] value is [error]; a returned [nil] error is [None].
    - A Go function returning [(T, error)] returns [error + T].
    - The [Solver] interface value may be [nil]: it is an [option].
    - Methods run in the monad [M]: they thread the process state and may
      panic (a Go run-time panic unwinds through every caller).
    - Everything observable is appended to [trace]: reads of standard input,
      lines printed, and calls into the injected factory and solvers. *)

From Stdlib Require Import ZArith Lia.
From stdpp Require Import gmap strings list.

#[local] Open Scope Z_scope.

(** ** Machine integers *)

Definition uint64_wrap (z : Z) : Z := z mod 2 ^ 64.

Definition in_uint64 (z : Z) : Prop := 0 <= z < 2 ^ 64.

#[global] Instance in_uint64_dec z : Decision (in_uint64 z).
Proof. unfold in_uint64. apply _. Defined.

Definition in_uint64b (z : Z) : bool := bool_decide (in_uint64 z).

(** Go's conversion [int64(u)] of a [uint64]: the same 64 bits read in two's
    complement. *)
Definition int64_of_uint64 (u : Z) : Z := (u + 2 ^ 63) mod 2 ^ 64 - 2 ^ 63.

(** ** Errors and panics *)

(** An [error] is told apart from [io.EOF] by [==]; any other error is known
    by its message. *)
Inductive error : Type :=
| io_EOF
| errorString (msg : string).

Inductive panic : Type :=
| NilPointerDereference   (* method call on a nil interface value *)
| NilMapAssignment.       (* assignment to an entry of a nil map *)

Inductive Outcome (A : Type) : Type :=
| Returned (a : A)
| Panicked (p : panic).
Arguments Returned {A} a.
Arguments Panicked {A} p.

(** The value of [message["type"]] after decoding a line into
    [map[string]interface{}]: a string, or anything else (absent, null, a
    number, ...) with its [%v] rendering. *)
Inductive TypeField : Type :=
| TypeString (s : string)
| TypeOther (shown : string).

Definition fmt_v (t : TypeField) : string :=
  match t with
  | TypeString s => s
  | TypeOther shown => shown
  end.

(** [message["type"] == c] for a string constant [c]. *)
Definition type_is (t : TypeField) (c : string) : bool :=
  match t with
  | TypeString s => bool_decide (s = c)
  | TypeOther _ => false
  end.

(** ** Types declared in other files of the package *)

(** [TrialIdGenerator{NextId uint64}], as solver.go builds and reads it. *)
Record TrialIdGenerator : Type := mkIdg { NextId : Z }.

(** Modelled from the spec: the generator's request for a fresh id, missing
    from src ("each request returns the current counter value and advances
    the counter by one"), on a [uint64] counter. *)
Definition Generate (idg : TrialIdGenerator) : Z * TrialIdGenerator :=
  (NextId idg, mkIdg (uint64_wrap (NextId idg + 1))).

(** The payload types that solver.go passes through without looking inside,
    and the one constant it uses. *)
Class Payloads : Type := {
  ProblemSpec : Type;
  EvaluatedTrial : Type;
  NextTrial : Type;
  Capabilities : Type;
  AllCapabilities : Capabilities;
  (** the [id] field of a [NextTrial] *)
  TrialId : NextTrial -> Z
}.

Section Runner.
Context {P : Payloads}.

Record SolverSpec : Type := mkSolverSpec {
  Name : string;
  Attrs : gmap string string;
  Caps : Capabilities
}.

Definition NewSolverSpec (name : string) : SolverSpec :=
  mkSolverSpec name ∅ AllCapabilities.

(** ** The injected capability objects

    [World] is the state of everything behind the two interfaces: the
    factory and every solver object it has made. [SolverObj] is a non-nil
    value of the [Solver] interface; a method call names the object and
    transforms the world. Every call is taken to return: plugin code that
    panics or never returns is not modelled, and the factory handed to
    [NewSolverRunner] is taken to be non-nil. What is proved about a call is
    therefore proved for the calls that return. *)
Class Capability : Type := {
  World : Type;
  SolverObj : Type;
  (** [SolverFactory.Specification()], a pointer to a [SolverSpec] (which may
      be nil) and an error *)
  Specification : World -> (error + option SolverSpec) * World;
  (** [SolverFactory.CreateSolver(seed int64, problem) (Solver, error)] *)
  CreateSolver : Z -> ProblemSpec -> World -> (error + option SolverObj) * World;
  (** [Solver.Ask(idg *TrialIdGenerator) (NextTrial, error)]: the generator
      is passed by pointer, so its final value comes back. *)
  Ask : SolverObj -> TrialIdGenerator -> World ->
        (error + NextTrial) * TrialIdGenerator * World;
  (** [Solver.Tell(trial EvaluatedTrial) error] *)
  Tell : SolverObj -> EvaluatedTrial -> World -> option error * World
}.

Context {C : Capability}.

(** A value of the interface type [Solver]; [None] is [nil]. *)
Definition Solver : Type := option SolverObj.

(** ** Messages *)

(** The anonymous structs the four handlers decode into. *)
Record TellCallMessage : Type := mkTellCall {
  tell_SolverId : Z;
  tell_Trial : EvaluatedTrial
}.

Record AskCallMessage : Type := mkAskCall {
  ask_SolverId : Z;
  ask_NextTrialId : Z
}.

Record DropSolverCastMessage : Type := mkDropSolverCast {
  drop_SolverId : Z
}.

Record CreateSolverCastMessage : Type := mkCreateSolverCast {
  create_SolverId : Z;
  create_RandomSeed : Z;
  create_Problem : ProblemSpec
}.

(** The three [map[string]interface{}] values handed to [sendMessage]. *)
Inductive Message : Type :=
| SOLVER_SPEC_CAST (spec : option SolverSpec)
| ASK_REPLY (trial : NextTrial) (next_trial_id : Z)
| TELL_REPLY.

Definition is_SOLVER_SPEC_CAST (m : Message) : bool :=
  match m with SOLVER_SPEC_CAST _ => true | _ => false end.

(** encoding/json on the byte strings of lines. The decoders into [uint64]
    fields only produce values of that type. *)
Class Json (Bytes : Type) : Type := {
  (** [json.Unmarshal(line, &message)] into a generic map, then
      [message["type"]] *)
  Unmarshal_type : Bytes -> error + TypeField;
  Unmarshal_TellCall : Bytes -> error + TellCallMessage;
  Unmarshal_AskCall : Bytes -> error + AskCallMessage;
  Unmarshal_DropSolverCast : Bytes -> error + DropSolverCastMessage;
  Unmarshal_CreateSolverCast : Bytes -> error + CreateSolverCastMessage;
  Marshal : Message -> error + Bytes;
  TellCall_uint64 : forall l m,
    Unmarshal_TellCall l = inr m -> in_uint64 (tell_SolverId m);
  AskCall_uint64 : forall l m,
    Unmarshal_AskCall l = inr m ->
    in_uint64 (ask_SolverId m) /\ in_uint64 (ask_NextTrialId m);
  DropSolverCast_uint64 : forall l m,
    Unmarshal_DropSolverCast l = inr m -> in_uint64 (drop_SolverId m);
  CreateSolverCast_uint64 : forall l m,
    Unmarshal_CreateSolverCast l = inr m ->
    in_uint64 (create_SolverId m) /\ in_uint64 (create_RandomSeed m)
}.

Context {Bytes : Type} {J : Json Bytes}.

(** ** Process state and trace *)

Inductive Event : Type :=
| EvReadLine (r : error + Bytes)
| EvPrint (m : Message) (line : Bytes)
| EvSpecification
| EvCreateSolver (seed : Z) (problem : ProblemSpec)
| EvAsk (s : SolverObj) (idg : TrialIdGenerator)
| EvTell (s : SolverObj) (trial : EvaluatedTrial).

(** [solvers] is the runner's field ([None] is the nil map that
    [NewSolverRunner] leaves there); [stdin] holds the lines not read yet and
    [stdin_end] the error every read returns once they are used up. *)
Record State : Type := mkState {
  solvers : option (gmap Z Solver);
  world : World;
  stdin : list Bytes;
  stdin_end : error;
  trace : list Event
}.

Definition set_solvers (m : option (gmap Z Solver)) (st : State) : State :=
  mkState m (world st) (stdin st) (stdin_end st) (trace st).

Definition set_world (w : World) (st : State) : State :=
  mkState (solvers st) w (stdin st) (stdin_end st) (trace st).

Definition set_stdin (ls : list Bytes) (st : State) : State :=
  mkState (solvers st) (world st) ls (stdin_end st) (trace st).

Definition log (e : Event) (st : State) : State :=
  mkState (solvers st) (world st) (stdin st) (stdin_end st) (trace st ++ [e]).

(** The lines written to standard output, oldest first. *)
Definition printed (t : list Event) : list Message :=
  omap (fun e => match e with EvPrint m _ => Some m | _ => None end) t.

Definition stdout (st : State) : list Message := printed (trace st).

(** The event of printing a SOLVER_SPEC_CAST line. *)
Definition is_handshake (e : Event) : bool :=
  match e with
  | EvPrint m _ => is_SOLVER_SPEC_CAST m
  | _ => false
  end.

(** The lines taken off standard input, oldest first. *)
Definition lines_read (t : list Event) : list Bytes :=
  omap (fun e => match e with EvReadLine (inr l) => Some l | _ => None end) t.

(** The event of calling [factory.Specification()]. *)
Definition is_Specification_call (e : Event) : bool :=
  match e with
  | EvSpecification => true
  | _ => false
  end.

(** ** The monad of methods *)

Definition M (A : Type) : Type := State -> Outcome A * State.

Definition ret {A} (a : A) : M A := fun st => (Returned a, st).

Definition bind {A B} (c : M A) (k : A -> M B) : M B :=
  fun st =>
    match c st with
    | (Returned a, st') => k a st'
    | (Panicked p, st') => (Panicked p, st')
    end.

Definition raise {A} (p : panic) : M A := fun st => (Panicked p, st).

Notation "x <<- c ;; k" := (bind c (fun x => k))
  (at level 100, c at next level, right associativity).

(** ** Map operations of Go *)

(** [r.solvers[id]]: the zero value (nil) when the key is absent or the map
    is nil. *)
Definition map_index (id : Z) : M Solver :=
  fun st =>
    (Returned (match solvers st with
               | Some m => default None (m !! id)
               | None => None
               end), st).

(** [delete(r.solvers, id)]: nothing happens when the key is absent or the
    map is nil. *)
Definition map_delete (id : Z) : M unit :=
  fun st => (Returned tt, set_solvers (delete id <$> solvers st) st).

(** [r.solvers[id] = solver]: panics on a nil map. *)
Definition map_assign (id : Z) (solver : Solver) : M unit :=
  fun st =>
    match solvers st with
    | Some m => (Returned tt, set_solvers (Some (<[id := solver]> m)) st)
    | None => (Panicked NilMapAssignment, st)
    end.

(** ** Calls through the interfaces *)

Definition factory_Specification : M (error + option SolverSpec) :=
  fun st =>
    let '(r, w) := Specification (world st) in
    (Returned r, set_world w (log EvSpecification st)).

Definition factory_CreateSolver (seed : Z) (problem : ProblemSpec)
  : M (error + Solver) :=
  fun st =>
    let '(r, w) := CreateSolver seed problem (world st) in
    (Returned r, set_world w (log (EvCreateSolver seed problem) st)).

(** [solver.Ask(&idg)]: a nil interface value has no method to call. *)
Definition solver_Ask (solver : Solver) (idg : TrialIdGenerator)
  : M ((error + NextTrial) * TrialIdGenerator) :=
  match solver with
  | None => raise NilPointerDereference
  | Some s => fun st =>
      let '(r, idg', w) := Ask s idg (world st) in
      (Returned (r, idg'), set_world w (log (EvAsk s idg) st))
  end.

Definition solver_Tell (solver : Solver) (trial : EvaluatedTrial)
  : M (option error) :=
  match solver with
  | None => raise NilPointerDereference
  | Some s => fun st =>
      let '(r, w) := Tell s trial (world st) in
      (Returned r, set_world w (log (EvTell s trial) st))
  end.

(** ** Line transport *)

(** Modelled from the spec: [readLine], missing from src
    ("readLine() -> bytes | end-of-stream | error", one complete line per
    call). *)
Definition readLine : M (error + Bytes) :=
  fun st =>
    match stdin st with
    | l :: rest => (Returned (inr l), log (EvReadLine (inr l)) (set_stdin rest st))
    | [] => (Returned (inl (stdin_end st)), log (EvReadLine (inl (stdin_end st))) st)
    end.

Definition sendMessage (message : Message) : M (option error) :=
  match Marshal message with
  | inl err => ret (Some err)
  | inr bytes => fun st => (Returned None, log (EvPrint message bytes) st)
  end.

(** ** Handlers *)

Definition handleTellCall (input : Bytes) : M (option error) :=
  match Unmarshal_TellCall input with
  | inl err => ret (Some err)
  | inr message =>
      solver <<- map_index (tell_SolverId message) ;;
      err <<- solver_Tell solver (tell_Trial message) ;;
      match err with
      | Some e => ret (Some e)
      | None => sendMessage TELL_REPLY
      end
  end.

Definition handleAskCall (input : Bytes) : M (option error) :=
  match Unmarshal_AskCall input with
  | inl err => ret (Some err)
  | inr message =>
      let idg := mkIdg (ask_NextTrialId message) in
      solver <<- map_index (ask_SolverId message) ;;
      r <<- solver_Ask solver idg ;;
      match r with
      | (inl err, _) => ret (Some err)
      | (inr trial, idg') => sendMessage (ASK_REPLY trial (NextId idg'))
      end
  end.

Definition handleDropSolverCast (input : Bytes) : M (option error) :=
  match Unmarshal_DropSolverCast input with
  | inl err => ret (Some err)
  | inr message =>
      _ <<- map_delete (drop_SolverId message) ;;
      ret None
  end.

Definition handleCreateSolverCast (input : Bytes) : M (option error) :=
  match Unmarshal_CreateSolverCast input with
  | inl err => ret (Some err)
  | inr message =>
      r <<- factory_CreateSolver (int64_of_uint64 (create_RandomSeed message))
                                 (create_Problem message) ;;
      match r with
      | inl err => ret (Some err)
      | inr solver =>
          _ <<- map_assign (create_SolverId message) solver ;;
          ret None
      end
  end.

Definition castSolverSpec : M (option error) :=
  r <<- factory_Specification ;;
  match r with
  | inl err => ret (Some err)
  | inr spec => sendMessage (SOLVER_SPEC_CAST spec)
  end.

(** ** The loop *)

Definition unknown_message_type (t : TypeField) : error :=
  errorString ("unknown message type: " +:+ fmt_v t).

Definition runOnce : M (bool * option error) :=
  r <<- readLine ;;
  match r with
  | inl io_EOF => ret (false, None)
  | inl err => ret (false, Some err)
  | inr line =>
      match Unmarshal_type line with
      | inl err => ret (false, Some err)
      | inr type =>
          if type_is type "CREATE_SOLVER_CAST" then
            err <<- handleCreateSolverCast line ;; ret (true, err)
          else if type_is type "DROP_SOLVER_CAST" then
            err <<- handleDropSolverCast line ;; ret (true, err)
          else if type_is type "ASK_CALL" then
            err <<- handleAskCall line ;; ret (true, err)
          else if type_is type "TELL_CALL" then
            err <<- handleTellCall line ;; ret (true, err)
          else ret (false, Some (unknown_message_type type))
      end
  end.

(** The [for] loop of [Run]; [None] when [fuel] iterations were not enough. *)
Fixpoint Run_loop (fuel : nat) (st : State)
  : option (Outcome (option error) * State) :=
  match fuel with
  | O => None
  | S fuel' =>
      match runOnce st with
      | (Panicked p, st') => Some (Panicked p, st')
      | (Returned (_, Some err), st') => Some (Returned (Some err), st')
      | (Returned (true, None), st') => Run_loop fuel' st'
      | (Returned (false, None), st') => Some (Returned None, st')
      end
  end.

Definition Run_fuel (fuel : nat) (st : State)
  : option (Outcome (option error) * State) :=
  match castSolverSpec (set_solvers (Some ∅) st) with
  | (Panicked p, st') => Some (Panicked p, st')
  | (Returned (Some err), st') => Some (Returned (Some err), st')
  | (Returned None, st') => Run_loop fuel st'
  end.

(** Every iteration that continues has read a line, so one more iteration
    than there are lines is enough. *)
Definition Run (st : State) : option (Outcome (option error) * State) :=
  Run_fuel (S (length (stdin st))) st.

(** [NewSolverRunner(factory)] in a fresh process: nil registry, nothing
    read or written yet. *)
Definition NewSolverRunner (w : World) (input : list Bytes) (input_end : error)
  : State :=
  mkState None w input input_end [].

End Runner.

(** ** An [Ask] that only requests ids

    What a solver's [Ask] does with the generator it is handed, when all it
    does with it is request ids: it returns, or requests an id and goes on
    with it. *)
Section AskBodies.
Context {P : Payloads} {C : Capability}.

Inductive AskBody : Type :=
| AskReturn (r : error + NextTrial) (w : World)
| AskGenerate (k : Z -> AskBody).

(** Runs a body on a generator; [minted] collects the ids handed out, oldest
    first. *)
Fixpoint run_AskBody (b : AskBody) (idg : TrialIdGenerator) (minted : list Z)
  : (error + NextTrial) * TrialIdGenerator * World * list Z :=
  match b with
  | AskReturn r w => (r, idg, w, minted)
  | AskGenerate k =>
      let '(id, idg') := Generate idg in
      run_AskBody (k id) idg' (minted ++ [id])
  end.

End AskBodies.

(** ** A small plugin to run the definitions on

    Payloads are numbers (a trial is its id). The factory refuses seed 0 and
    otherwise makes a solver that remembers its seed; the world records
    whether the factory can describe itself and counts the calls made. *)
Module Plugin.

Definition payloads : Payloads :=
  {| ProblemSpec := unit;
     EvaluatedTrial := Z;
     NextTrial := Z;
     Capabilities := Z;
     AllCapabilities := 0;
     TrialId := fun t => t |}.

Record PWorld : Type := mkPWorld { describes : bool; calls : nat }.

Definition called (w : PWorld) : PWorld := mkPWorld (describes w) (S (calls w)).

Definition specification (w : PWorld)
  : (error + option (@SolverSpec payloads)) * PWorld :=
  if describes w
  then (inr (Some (@NewSolverSpec payloads "plugin")), called w)
  else (inl (errorString "no specification"), called w).

Definition createSolver (seed : Z) (_ : unit) (w : PWorld)
  : (error + option Z) * PWorld :=
  if seed =? 0
  then (inl (errorString "unsupported configuration"), called w)
  else (inr (Some seed), called w).

(** Solver 13 has nothing left to propose; solver 7 takes an id from the
    generator and then labels its trial 7; solver 5 proposes trial 5 without
    asking for an id; every other solver labels its trial with the id it
    took. *)
Definition ask (s : Z) (idg : TrialIdGenerator) (w : PWorld)
  : (error + Z) * TrialIdGenerator * PWorld :=
  if s =? 13 then (inl (errorString "search space exhausted"), idg, called w)
  else if s =? 5 then (inr 5, idg, called w)
  else
    let '(id, idg') := Generate idg in
    if s =? 7 then (inr 7, idg', called w) else (inr id, idg', called w).

Definition tell (s : Z) (trial : Z) (w : PWorld) : option error * PWorld :=
  if trial <? 0
  then (Some (errorString "unknown trial"), called w)
  else (None, called w).

Definition capability : @Capability payloads :=
  {| World := PWorld;
     SolverObj := Z;
     Specification := specification;
     CreateSolver := createSolver;
     Ask := ask;
     Tell := tell |}.

(** The same [ask], written as bodies over the generator. *)
Definition ask_return (r : error + Z) (w : PWorld) : @AskBody payloads capability :=
  @AskReturn payloads capability r w.

Definition ask_body (s : Z) (w : PWorld) : @AskBody payloads capability :=
  if s =? 13 then ask_return (inl (errorString "search space exhausted")) (called w)
  else if s =? 5 then ask_return (inr 5) (called w)
  else AskGenerate (fun id =>
         if s =? 7 then ask_return (inr 7) (called w)
         else ask_return (inr id) (called w)).

(** Lines, already tokenised: the four requests, a well-formed object of
    another type, bytes that are not JSON, and the lines the runner prints. *)
Inductive Line : Type :=
| CreateLine (solver_id random_seed : Z)
| DropLine (solver_id : Z)
| AskLine (solver_id next_trial_id : Z)
| TellLine (solver_id trial : Z)
| BogusLine
| NotJson
| Out (m : @Message payloads).

Definition syntax_error {A} : error + A :=
  inl (errorString "invalid character").

Definition range_error {A} : error + A :=
  inl (errorString "cannot unmarshal number into Go struct field of type uint64").

Definition unmarshal_type (l : Line) : error + TypeField :=
  match l with
  | CreateLine _ _ => inr (TypeString "CREATE_SOLVER_CAST")
  | DropLine _ => inr (TypeString "DROP_SOLVER_CAST")
  | AskLine _ _ => inr (TypeString "ASK_CALL")
  | TellLine _ _ => inr (TypeString "TELL_CALL")
  | BogusLine => inr (TypeString "BOGUS")
  | NotJson => syntax_error
  | Out (SOLVER_SPEC_CAST _) => inr (TypeString "SOLVER_SPEC_CAST")
  | Out (ASK_REPLY _ _) => inr (TypeString "ASK_REPLY")
  | Out TELL_REPLY => inr (TypeString "TELL_REPLY")
  end.

(** The [solver_id] member of a line's object, zero when it has none. *)
Definition solver_id_of (l : Line) : Z :=
  match l with
  | CreateLine i _ | DropLine i | AskLine i _ | TellLine i _ => i
  | _ => 0
  end.

Definition unmarshal_TellCall (l : Line)
  : error + @TellCallMessage payloads :=
  match l with
  | NotJson => syntax_error
  | _ =>
      if in_uint64b (solver_id_of l)
      then inr (@mkTellCall payloads (solver_id_of l)
                  (match l with TellLine _ t => t | _ => 0 end))
      else range_error
  end.

Definition unmarshal_AskCall (l : Line) : error + AskCallMessage :=
  match l with
  | NotJson => syntax_error
  | _ =>
      let n := match l with AskLine _ n => n | _ => 0 end in
      if in_uint64b (solver_id_of l) && in_uint64b n
      then inr (mkAskCall (solver_id_of l) n)
      else range_error
  end.

Definition unmarshal_DropSolverCast (l : Line) : error + DropSolverCastMessage :=
  match l with
  | NotJson => syntax_error
  | _ =>
      if in_uint64b (solver_id_of l)
      then inr (mkDropSolverCast (solver_id_of l))
      else range_error
  end.

Definition unmarshal_CreateSolverCast (l : Line)
  : error + @CreateSolverCastMessage payloads :=
  match l with
  | NotJson => syntax_error
  | _ =>
      let seed := match l with CreateLine _ s => s | _ => 0 end in
      if in_uint64b (solver_id_of l) && in_uint64b seed
      then inr (@mkCreateSolverCast payloads (solver_id_of l) seed tt)
      else range_error
  end.

Definition marshal (m : @Message payloads) : error + Line := inr (Out m).

Definition json : @Json payloads Line.
Proof.
  refine {| Unmarshal_type := unmarshal_type;
            Unmarshal_TellCall := unmarshal_TellCall;
            Unmarshal_AskCall := unmarshal_AskCall;
            Unmarshal_DropSolverCast := unmarshal_DropSolverCast;
            Unmarshal_CreateSolverCast := unmarshal_CreateSolverCast;
            Marshal := marshal |}.
  - intros l m H. unfold unmarshal_TellCall in H.
    destruct (in_uint64b (solver_id_of l)) eqn:E;
      destruct l; try discriminate; inversion H; subst; simpl in *;
      now apply (bool_decide_eq_true_1 (in_uint64 _)).
  - intros l m H. unfold unmarshal_AskCall in H.
    destruct l; try discriminate;
      match type of H with
      | (if ?a && ?b then _ else _) = _ =>
          destruct a eqn:Ea; destruct b eqn:Eb; try discriminate
      end;
      inversion H; subst; simpl in *; split; now apply (bool_decide_eq_true_1 (in_uint64 _)).
  - intros l m H. unfold unmarshal_DropSolverCast in H.
    destruct (in_uint64b (solver_id_of l)) eqn:E;
      destruct l; try discriminate; inversion H; subst; simpl in *;
      now apply (bool_decide_eq_true_1 (in_uint64 _)).
  - intros l m H. unfold unmarshal_CreateSolverCast in H.
    destruct l; try discriminate;
      match type of H with
      | (if ?a && ?b then _ else _) = _ =>
          destruct a eqn:Ea; destruct b eqn:Eb; try discriminate
      end;
      inversion H; subst; simpl in *; split; now apply (bool_decide_eq_true_1 (in_uint64 _)).
Defined.

(** A fresh process of the plugin: the runner just built, [input] waiting on
    standard input and ending in end-of-stream. *)
Definition start (can_describe : bool) (input : list Line)
  : @State payloads capability Line :=
  @NewSolverRunner payloads capability Line (mkPWorld can_describe 0) input io_EOF.

(** A process in the middle of its loop, with registry [m] and [input] still
    to read. *)
Definition holding (m : gmap Z (option Z)) (input : list Line)
  : @State payloads capability Line :=
  @mkState payloads capability Line (Some m) (mkPWorld true 0) input io_EOF [].

(** The handshake line of the plugin. *)
Definition handshake : @Message payloads :=
  SOLVER_SPEC_CAST (Some (@NewSolverSpec payloads "plugin")).

(** Messages and events at the plugin's payload types. *)
Definition create_message (id seed : Z) : @CreateSolverCastMessage payloads :=
  @mkCreateSolverCast payloads id seed tt.

Definition tell_message (id trial : Z) : @TellCallMessage payloads :=
  @mkTellCall payloads id trial.

Definition ask_reply (trial next_trial_id : Z) : @Message payloads :=
  @ASK_REPLY payloads trial next_trial_id.


(** How a run ends: its outcome, what it printed, and the lines it left
    unread. *)
Definition finish (st : @State payloads capability Line)
  : option (Outcome (option error) * list (@Message payloads) * list Line) :=
  match @Run payloads capability Line json st with
  | Some (out, st') => Some (out, stdout st', stdin st')
  | None => None
  end.

End Plugin.

(** ** A factory that hands out no solver

    [CreateSolver] returns a nil [Solver] together with a nil error, which
    the interface allows. Payloads and lines are those of the plugin. *)
Module Careless.

Definition capability : @Capability Plugin.payloads :=
  @Build_Capability Plugin.payloads unit Z
    (fun w => (inr None, w))
    (fun _ _ w => (inr None, w))
    (fun _ idg w => (inr 0, idg, w))
    (fun _ _ w => (None, w)).

Definition holding (m : gmap Z (option Z)) (input : list Plugin.Line)
  : @State Plugin.payloads capability Plugin.Line :=
  @mkState Plugin.payloads capability Plugin.Line (Some m) tt input io_EOF [].

End Careless.

(** * Properties *)

Section Properties.
Context {P : Payloads} {C : Capability} {Bytes : Type} {J : Json Bytes}.

Implicit Types (st : @State P C Bytes) (m : gmap Z Solver) (l : Bytes).
Implicit Types (t : list (@Event P C Bytes)) (e : @Event P C Bytes).

(** ** Integers *)

Lemma int64_of_uint64_low u :
  in_uint64 u -> u < 2 ^ 63 -> int64_of_uint64 u = u.
Proof.
  unfold in_uint64, int64_of_uint64. intros Hu Hlt.
  rewrite Z.mod_small by lia. lia.
Qed.

Lemma int64_of_uint64_high u :
  in_uint64 u -> 2 ^ 63 <= u -> int64_of_uint64 u = u - 2 ^ 64.
Proof.
  unfold in_uint64, int64_of_uint64. intros Hu Hge.
  replace (u + 2 ^ 63) with ((u - 2 ^ 63) + 1 * 2 ^ 64) by lia.
  rewrite Z.mod_add by lia. rewrite Z.mod_small by lia. lia.
Qed.

(** ** The trace *)

Lemma printed_app t1 t2 :
  printed (t1 ++ t2) = printed t1 ++ printed t2.
Proof. unfold printed. apply omap_app. Qed.

Lemma stdout_log_print st msg bytes :
  stdout (log (EvPrint msg bytes) st) = stdout st ++ [msg].
Proof. unfold stdout, log. simpl. now rewrite printed_app. Qed.

Lemma stdout_log_silent st e :
  (forall msg bytes, e <> EvPrint msg bytes) ->
  stdout (log e st) = stdout st.
Proof.
  intros Hne. unfold stdout, log. simpl. rewrite printed_app.
  destruct e; simpl; rewrite ?app_nil_r; try reflexivity.
  now destruct (Hne m line).
Qed.

(** Unfolds the monad and the primitive operations, and splits on what the
    external functions returned. *)
Ltac run_monad :=
  repeat (unfold bind, ret, raise, sendMessage, map_index, map_delete,
            map_assign, factory_Specification, factory_CreateSolver,
            solver_Ask, solver_Tell, readLine in *;
          simpl in *;
          try case_match;
          simplify_eq /=).

(** ** Dropping a solver *)

(** C9. A DROP_SOLVER_CAST whose payload decodes returns no error and
    leaves the trace (hence the output), the capability objects and the
    waiting input as they were; in the registry after it the id has no
    entry, every other id has the entry it had, and the registry is the one
    before when the id had no entry. *)
Theorem C9_drop_removes_or_is_noop st m l msg :
  solvers st = Some m ->
  Unmarshal_DropSolverCast l = inr msg ->
  exists st' m',
    handleDropSolverCast l st = (Returned None, st')
    /\ solvers st' = Some m'
    /\ trace st' = trace st
    /\ stdout st' = stdout st
    /\ world st' = world st
    /\ stdin st' = stdin st
    /\ m' !! drop_SolverId msg = None
    /\ (forall j, j <> drop_SolverId msg -> m' !! j = m !! j)
    /\ (m !! drop_SolverId msg = None -> m' = m).
Proof.
  intros Hm Hdec. unfold handleDropSolverCast. rewrite Hdec.
  unfold bind, map_delete, ret. rewrite Hm. simpl.
  eexists _, _. split; [reflexivity|]. simpl.
  split; [reflexivity|].
  repeat split.
  - apply lookup_delete_eq.
  - intros j Hj. now apply lookup_delete_ne.
  - intros Hnone. now apply delete_id.
Qed.

(** ** Creating a solver *)

(** C7, as the code has it. A CREATE_SOLVER_CAST for an id that already has
    an entry, with a factory that makes the solver: the handler returns no
    error and prints nothing; in the registry after it the id holds what the
    factory returned and every other id holds what it held. The old
    instance is then found under exactly the other ids that held it already,
    and under this id only if the factory returned that same instance. *)
Theorem C7_create_overwrites_the_entry st m l msg old new w' :
  solvers st = Some m ->
  Unmarshal_CreateSolverCast l = inr msg ->
  m !! create_SolverId msg = Some old ->
  CreateSolver (int64_of_uint64 (create_RandomSeed msg)) (create_Problem msg)
    (world st) = (inr new, w') ->
  exists st' m',
    handleCreateSolverCast l st = (Returned None, st')
    /\ solvers st' = Some m'
    /\ stdout st' = stdout st
    /\ m' !! create_SolverId msg = Some new
    /\ (forall j, j <> create_SolverId msg -> m' !! j = m !! j)
    /\ (forall j,
          m' !! j = Some old
          <-> (j = create_SolverId msg /\ new = old)
              \/ (j <> create_SolverId msg /\ m !! j = Some old)).
Proof.
  intros Hm Hdec Hold Hnew.
  unfold handleCreateSolverCast. rewrite Hdec.
  unfold bind, factory_CreateSolver. rewrite Hnew.
  unfold map_assign. simpl. rewrite Hm.
  eexists _, _. split; [reflexivity|]. simpl.
  split; [reflexivity|].
  split; [now apply stdout_log_silent|].
  split; [apply lookup_insert_eq|].
  split; [intros j Hj; now apply lookup_insert_ne|].
  intros j. destruct (decide (j = create_SolverId msg)) as [->|Hneq].
  - rewrite lookup_insert_eq. split.
    + intros Heq. left. split; [reflexivity|congruence].
    + intros [[_ ->]|[Hne _]]; [reflexivity|congruence].
  - rewrite lookup_insert_ne by congruence. split.
    + intros Heq. right. split; assumption.
    + intros [[Heq _]|[_ Hj]]; [congruence|assumption].
Qed.



(** ** Failures of the capability objects *)

(** C8. When the [Ask] (respectively [Tell]) of the solver found under the
    id returns an error, the handler returns that error, prints nothing and
    leaves the registry as it was. *)
Theorem C8_ask_tell_failure_keeps_registry st m :
  solvers st = Some m ->
  (forall l msg s err idg' w',
     Unmarshal_AskCall l = inr msg ->
     m !! ask_SolverId msg = Some (Some s) ->
     Ask s (mkIdg (ask_NextTrialId msg)) (world st) = (inl err, idg', w') ->
     exists st',
       handleAskCall l st = (Returned (Some err), st')
       /\ solvers st' = Some m /\ stdout st' = stdout st)
  /\ (forall l msg s err w',
       Unmarshal_TellCall l = inr msg ->
       m !! tell_SolverId msg = Some (Some s) ->
       Tell s (tell_Trial msg) (world st) = (Some err, w') ->
       exists st',
         handleTellCall l st = (Returned (Some err), st')
         /\ solvers st' = Some m /\ stdout st' = stdout st).
Proof.
  intros Hm. split.
  - intros l msg s err idg' w' Hdec Hlive Hask.
    unfold handleAskCall. rewrite Hdec.
    unfold bind, map_index. rewrite Hm, Hlive. simpl. rewrite Hask.
    eexists. split; [reflexivity|]. simpl.
    split; [assumption|]. now apply stdout_log_silent.
  - intros l msg s err w' Hdec Hlive Htell.
    unfold handleTellCall. rewrite Hdec.
    unfold bind, map_index. rewrite Hm, Hlive. simpl. rewrite Htell.
    eexists. split; [reflexivity|]. simpl.
    split; [assumption|]. now apply stdout_log_silent.
Qed.

(** ** One iteration of the loop *)

Ltac show_trace :=
  unfold log, set_world, set_stdin, set_solvers; simpl;
  rewrite <- ?app_assoc; simpl.

(** What an iteration does to the trace and to standard input: it only adds
    events, never a handshake; it reports "stop, no error" exactly when its
    last event is a read that met the end of the stream; and when it reports
    "continue" it has taken one line off standard input. *)
Lemma runOnce_inv st o st' :
  runOnce st = (o, st') ->
  exists t,
    trace st' = trace st ++ t
    /\ is_Some (last t)
    /\ stdin_end st' = stdin_end st
    /\ Forall (fun e => is_handshake e = false) t
    /\ (o = Returned (false, None) <-> last t = Some (EvReadLine (inl io_EOF)))
    /\ (o = Returned (false, None) -> stdin st' = [] /\ stdin_end st = io_EOF)
    /\ (forall err, o = Returned (true, err) ->
          exists l, stdin st = l :: stdin st').
Proof.
  unfold runOnce, handleCreateSolverCast, handleDropSolverCast,
    handleAskCall, handleTellCall.
  intros H. run_monad.
  all: show_trace.
  all: try match goal with
           | Hend : stdin_end _ = _ |- _ => rewrite !Hend
           end.
  all: eexists; split; [reflexivity|].
  all: split; [simpl; eauto|].
  all: split; [reflexivity|].
  all: split; [repeat constructor|].
  all: split; [simpl; split; intros; simplify_eq; done|].
  all: split; [intros; simplify_eq; done|].
  all: intros; simplify_eq; eauto.
Qed.

(** ** The handshake *)

Lemma castSolverSpec_cases st :
  match Specification (world st) with
  | (inl err, w) =>
      castSolverSpec st
      = (Returned (Some err), set_world w (log EvSpecification st))
  | (inr spec, w) =>
      match Marshal (SOLVER_SPEC_CAST spec) with
      | inl err =>
          castSolverSpec st
          = (Returned (Some err), set_world w (log EvSpecification st))
      | inr bytes =>
          castSolverSpec st
          = (Returned None,
             log (EvPrint (SOLVER_SPEC_CAST spec) bytes)
               (set_world w (log EvSpecification st)))
      end
  end.
Proof.
  unfold castSolverSpec, bind, factory_Specification, sendMessage, ret.
  destruct (Specification (world st)) as [[err|spec] w]; [reflexivity|].
  destruct (Marshal (SOLVER_SPEC_CAST spec)); reflexivity.
Qed.

(** ** The whole loop *)

(** Closes the clauses of the loop invariant in an iteration that ends the
    loop, from the facts about that iteration. *)
Ltac finish_last Hstop Hin :=
  repeat split; try assumption; try discriminate;
  try (let Heof := fresh in intros Heof; apply Hstop in Heof; discriminate);
  try (intros _; now apply Hstop);
  try (now apply Hin).

Lemma Run_loop_inv fuel : forall st out st',
  Run_loop fuel st = Some (out, st') ->
  exists t,
    trace st' = trace st ++ t
    /\ is_Some (last t)
    /\ stdin_end st' = stdin_end st
    /\ Forall (fun e => is_handshake e = false) t
    /\ (out = Returned None <-> last t = Some (EvReadLine (inl io_EOF)))
    /\ (out = Returned None -> stdin st' = [] /\ stdin_end st = io_EOF).
Proof.
  induction fuel as [|fuel IH]; intros st out st' Hrun; [discriminate|].
  simpl in Hrun.
  destruct (runOnce st) as [o st1] eqn:Honce.
  destruct (runOnce_inv _ _ _ Honce)
    as (t1 & Htr & Hlast & Hend & Hno & Hstop & Hin & Hcont).
  destruct o as [[[|] [err|]]|p]; simplify_eq.
  - exists t1. finish_last Hstop Hin.
  - destruct (IH _ _ _ Hrun)
      as (t2 & Htr2 & Hlast2 & Hend2 & Hno2 & Hstop2 & Hin2).
    exists (t1 ++ t2).
    assert (Hl : last (t1 ++ t2) = last t2).
    { rewrite last_app. destruct Hlast2 as [y ->]. reflexivity. }
    rewrite Hl.
    split; [rewrite Htr2, Htr; now rewrite app_assoc|].
    split; [assumption|].
    split; [congruence|].
    split; [now apply Forall_app_2|].
    split; [assumption|].
    intros Hout. destruct (Hin2 Hout) as [Hnil Heof].
    split; [assumption|congruence].
  - exists t1. finish_last Hstop Hin.
  - exists t1. finish_last Hstop Hin.
  - exists t1. finish_last Hstop Hin.
Qed.

(** The loop ends within one iteration more than there are lines waiting. *)
Lemma Run_loop_total fuel : forall st,
  (length (stdin st) < fuel)%nat ->
  exists out st', Run_loop fuel st = Some (out, st').
Proof.
  induction fuel as [|fuel IH]; intros st Hlen; [lia|].
  simpl.
  destruct (runOnce st) as [o st1] eqn:Honce.
  destruct (runOnce_inv _ _ _ Honce) as (t1 & _ & _ & _ & _ & _ & _ & Hcont).
  destruct o as [[[|] [err|]]|p]; eauto.
  destruct (Hcont None eq_refl) as [l Hl].
  apply IH. rewrite Hl in Hlen. simpl in Hlen. lia.
Qed.

(** [Run] always comes to an end: it returns or it panics. *)
Lemma Run_total st : exists out st', Run st = Some (out, st').
Proof.
  unfold Run, Run_fuel.
  pose proof (castSolverSpec_cases (set_solvers (Some ∅) st)) as Hcast.
  destruct (Specification (world (set_solvers (Some ∅) st)))
    as [[err|spec] w]; [rewrite Hcast; eauto|].
  destruct (Marshal (SOLVER_SPEC_CAST spec)); rewrite Hcast; [eauto|].
  apply Run_loop_total. simpl. lia.
Qed.

(** C4, as the code has it. [Run] first asks the factory for its
    specification. If that succeeds and the message encodes, the handshake
    is printed next, before any read of standard input, and nothing printed
    later in the run is a SOLVER_SPEC_CAST. If the factory or the encoder
    fails, [Run] returns that error having printed and read nothing. *)
Theorem C4_handshake_first_and_once_when_available st :
  exists out st',
    Run st = Some (out, st')
    /\ match Specification (world st) with
       | (inr spec, _) =>
           match Marshal (SOLVER_SPEC_CAST spec) with
           | inr bytes =>
               exists t,
                 trace st'
                 = trace st
                   ++ EvSpecification :: EvPrint (SOLVER_SPEC_CAST spec) bytes :: t
                 /\ Forall (fun e => is_handshake e = false) t
           | inl err =>
               out = Returned (Some err)
               /\ trace st' = trace st ++ [EvSpecification]
               /\ stdin st' = stdin st
           end
       | (inl err, _) =>
           out = Returned (Some err)
           /\ trace st' = trace st ++ [EvSpecification]
           /\ stdin st' = stdin st
       end.
Proof.
  destruct (Run_total st) as (out & st' & Hrun).
  exists out, st'. split; [assumption|].
  unfold Run, Run_fuel in Hrun.
  pose proof (castSolverSpec_cases (set_solvers (Some ∅) st)) as Hcast.
  simpl in Hcast.
  destruct (Specification (world st)) as [[err|spec] w].
  - rewrite Hcast in Hrun. simplify_eq. auto.
  - destruct (Marshal (SOLVER_SPEC_CAST spec)) as [err|bytes].
    + rewrite Hcast in Hrun. simplify_eq. auto.
    + rewrite Hcast in Hrun.
      destruct (Run_loop_inv _ _ _ _ Hrun) as (t & Htr & _ & _ & Hno & _).
      exists t. split; [|assumption].
      rewrite Htr. simpl. rewrite <- !app_assoc. reflexivity.
Qed.

(** ** End of stream *)

(** C6. When the read of the next line meets the end of the stream, the
    loop ends with no error: the read is the only thing that happens, so
    nothing is printed and the registry and the capability objects are as
    they were. And that is the only way to no error: a finished run has
    returned no error exactly when the last thing it did was such a read,
    and then every line has been read and the stream ended with [io.EOF]. *)
Theorem C6_stopped_exactly_at_end_of_stream st :
  (stdin st = [] ->
   stdin_end st = io_EOF ->
   forall fuel,
   exists st',
     Run_loop (S fuel) st = Some (Returned None, st')
     /\ trace st' = trace st ++ [EvReadLine (inl io_EOF)]
     /\ stdout st' = stdout st
     /\ solvers st' = solvers st
     /\ world st' = world st
     /\ stdin st' = [])
  /\ (forall out st',
        Run st = Some (out, st') ->
        (out = Returned None
         <-> last (trace st') = Some (EvReadLine (inl io_EOF)))
        /\ (out = Returned None -> stdin st' = [] /\ stdin_end st = io_EOF)).
Proof.
  split.
  { intros Hin Hend fuel. simpl.
    unfold runOnce, bind, readLine. rewrite Hin, Hend. simpl.
    eexists. split; [reflexivity|]. simpl.
    split; [reflexivity|].
    split; [now apply stdout_log_silent|].
    repeat split. assumption. }
  intros out st' Hrun. unfold Run, Run_fuel in Hrun.
  pose proof (castSolverSpec_cases (set_solvers (Some ∅) st)) as Hcast.
  simpl in Hcast.
  assert (Hfail : forall err w,
            out = Returned (Some err) ->
            st' = set_world w (log EvSpecification (set_solvers (Some ∅) st)) ->
            (out = Returned None
             <-> last (trace st') = Some (EvReadLine (inl io_EOF)))
            /\ (out = Returned None -> stdin st' = [] /\ stdin_end st = io_EOF)).
  { intros err w -> ->. simpl. rewrite last_snoc.
    split; [split|]; discriminate. }
  destruct (Specification (world st)) as [[err|spec] w].
  - rewrite Hcast in Hrun. simplify_eq. now apply (Hfail err w).
  - destruct (Marshal (SOLVER_SPEC_CAST spec)) as [err|bytes].
    + rewrite Hcast in Hrun. simplify_eq. now apply (Hfail err w).
    + rewrite Hcast in Hrun.
      destruct (Run_loop_inv _ _ _ _ Hrun)
        as (t & Htr & [e Hlast] & _ & _ & Hstop & Hin).
      rewrite Htr, last_app, Hlast. rewrite Hlast in Hstop.
      split; [assumption|].
      intros Hout. destruct (Hin Hout) as [Hnil Heof].
      split; assumption.
Qed.

(** ** Unknown message types *)

Lemma type_is_other ty c : ty <> TypeString c -> type_is ty c = false.
Proof.
  destruct ty as [s|]; simpl; [|reflexivity].
  intros Hne. apply bool_decide_eq_false. congruence.
Qed.

(** C5. When the line read next decodes to an object whose [type] is none of
    the four request types, the run returns the error "unknown message type:
    ..." at once: the line has been read, nothing has been printed, the
    registry is untouched and the lines after it stay unread. *)
Theorem C5_unknown_type_ends_the_run fuel st l rest ty :
  stdin st = l :: rest ->
  Unmarshal_type l = inr ty ->
  ty <> TypeString "CREATE_SOLVER_CAST" ->
  ty <> TypeString "DROP_SOLVER_CAST" ->
  ty <> TypeString "ASK_CALL" ->
  ty <> TypeString "TELL_CALL" ->
  exists st',
    Run_loop (S fuel) st
    = Some (Returned (Some (unknown_message_type ty)), st')
    /\ trace st' = trace st ++ [EvReadLine (inr l)]
    /\ stdout st' = stdout st
    /\ stdin st' = rest
    /\ solvers st' = solvers st.
Proof.
  intros Hin Hty H1 H2 H3 H4.
  simpl. unfold runOnce, bind, readLine. rewrite Hin, Hty.
  rewrite !type_is_other by assumption.
  unfold ret. eexists. split; [reflexivity|]. simpl.
  repeat split. apply (stdout_log_silent (set_stdin rest st)). discriminate.
Qed.

(** C2, as the code has it. When the factory refuses a CREATE_SOLVER_CAST,
    the registry is left exactly as it was, nothing is printed, and the run
    ends there with the factory's error: the lines after it stay unread. *)
Theorem C2_create_failure_ends_the_run fuel st l rest msg err w' :
  stdin st = l :: rest ->
  Unmarshal_type l = inr (TypeString "CREATE_SOLVER_CAST") ->
  Unmarshal_CreateSolverCast l = inr msg ->
  CreateSolver (int64_of_uint64 (create_RandomSeed msg)) (create_Problem msg)
    (world st) = (inl err, w') ->
  exists st',
    Run_loop (S fuel) st = Some (Returned (Some err), st')
    /\ solvers st' = solvers st
    /\ stdout st' = stdout st
    /\ stdin st' = rest.
Proof.
  intros Hin Hty Hdec Hfail.
  simpl. unfold runOnce, bind, readLine. rewrite Hin, Hty. simpl.
  unfold handleCreateSolverCast. rewrite Hdec.
  unfold bind, factory_CreateSolver. simpl. rewrite Hfail. simpl.
  eexists. split; [reflexivity|]. simpl.
  repeat split.
  unfold stdout. simpl. rewrite !printed_app. simpl. now rewrite !app_nil_r.
Qed.

(** ** Asking for a trial *)

Lemma uint64_wrap_small z : in_uint64 z -> uint64_wrap z = z.
Proof. unfold in_uint64, uint64_wrap. intros Hz. now apply Z.mod_small. Qed.

Lemma uint64_wrap_range z : in_uint64 (uint64_wrap z).
Proof. unfold in_uint64, uint64_wrap. apply Z.mod_pos_bound. lia. Qed.

Lemma uint64_wrap_add_l a b : uint64_wrap (uint64_wrap a + b) = uint64_wrap (a + b).
Proof. unfold uint64_wrap. apply Zplus_mod_idemp_l. Qed.

(** A body that has handed out [k] ids from a counter at [n] leaves it at
    [n + k], wrapped, and the ids are [n], [n + 1], ..., wrapped. *)
Lemma run_AskBody_counts (b : AskBody) : forall idg minted r idg' w ids,
  in_uint64 (NextId idg) ->
  run_AskBody b idg minted = (r, idg', w, ids) ->
  exists new,
    ids = minted ++ new
    /\ NextId idg' = uint64_wrap (NextId idg + Z.of_nat (length new))
    /\ (forall id, id ∈ new ->
          exists j, 0 <= j < Z.of_nat (length new)
                    /\ id = uint64_wrap (NextId idg + j)).
Proof.
  induction b as [r0 w0|k IH]; intros idg minted r idg' w ids Hn Hrun;
    simpl in Hrun.
  - simplify_eq. exists []. rewrite app_nil_r. simpl.
    split; [reflexivity|]. split.
    + rewrite Z.add_0_r. symmetry. now apply uint64_wrap_small.
    + intros id Hid. inversion Hid.
  - destruct (IH _ (mkIdg (uint64_wrap (NextId idg + 1))) _ _ _ _ _
                (uint64_wrap_range _) Hrun)
      as (new & -> & Hnext & Hids).
    simpl in Hnext, Hids.
    exists (NextId idg :: new).
    split; [now rewrite <- app_assoc|].
    split.
    + rewrite Hnext, uint64_wrap_add_l. f_equal. simpl length. lia.
    + intros id Hid. apply elem_of_cons in Hid as [->|Hid].
      * exists 0. simpl length. split; [lia|].
        rewrite Z.add_0_r. symmetry. now apply uint64_wrap_small.
      * destruct (Hids id Hid) as (j & Hj & ->).
        exists (j + 1). simpl length. split; [lia|].
        rewrite uint64_wrap_add_l. f_equal. lia.
Qed.

(** C3, as the code has it. An ASK_CALL with [next_trial_id = n] for a live
    solver whose [Ask] hands out [k] ids and returns a trial, the reply
    encoding: the handler returns no error and prints exactly one line, the
    ASK_REPLY carrying that trial and [(n + k) mod 2^64]. The handler does
    not look at the trial's id; if it is one of the ids handed out and the
    counter did not wrap, it lies in [[n, n + k)]. *)
Theorem C3_ask_reply_carries_final_counter
    st m l msg s (b : AskBody) trial idg' w' ids bytes :
  solvers st = Some m ->
  Unmarshal_AskCall l = inr msg ->
  m !! ask_SolverId msg = Some (Some s) ->
  Ask s (mkIdg (ask_NextTrialId msg)) (world st) = (inr trial, idg', w') ->
  run_AskBody b (mkIdg (ask_NextTrialId msg)) [] = (inr trial, idg', w', ids) ->
  Marshal (ASK_REPLY trial (NextId idg')) = inr bytes ->
  exists st',
    handleAskCall l st = (Returned None, st')
    /\ NextId idg'
       = uint64_wrap (ask_NextTrialId msg + Z.of_nat (length ids))
    /\ trace st'
       = trace st
         ++ [EvAsk s (mkIdg (ask_NextTrialId msg));
             EvPrint
               (ASK_REPLY trial
                  (uint64_wrap (ask_NextTrialId msg + Z.of_nat (length ids))))
               bytes]
    /\ stdout st'
       = stdout st
         ++ [ASK_REPLY trial
               (uint64_wrap (ask_NextTrialId msg + Z.of_nat (length ids)))]
    /\ solvers st' = solvers st
    /\ (TrialId trial ∈ ids ->
        ask_NextTrialId msg + Z.of_nat (length ids) <= 2 ^ 64 ->
        ask_NextTrialId msg <= TrialId trial
        < ask_NextTrialId msg + Z.of_nat (length ids)).
Proof.
  intros Hm Hdec Hlive Hask Hbody Henc.
  destruct (AskCall_uint64 l msg Hdec) as [_ Hn].
  destruct (run_AskBody_counts b (mkIdg (ask_NextTrialId msg)) _ _ _ _ _
              Hn Hbody)
    as (new & Hnew & Hnext & Hids).
  simpl in Hnew, Hnext, Hids. subst ids.
  unfold handleAskCall. rewrite Hdec.
  unfold bind, map_index. rewrite Hm, Hlive. simpl. rewrite Hask.
  unfold sendMessage. rewrite Henc.
  eexists. split; [reflexivity|]. simpl.
  split; [assumption|].
  split; [rewrite <- Hnext, <- app_assoc; reflexivity|].
  split; [unfold stdout; simpl; rewrite !printed_app; simpl;
          rewrite <- Hnext, <- app_assoc; reflexivity|].
  split; [assumption|].
  intros Hid Hfit.
  destruct (Hids _ Hid) as (j & Hj & Htrial).
  rewrite uint64_wrap_small in Htrial
    by (unfold in_uint64 in *; lia).
  lia.
Qed.

(** ** Looking up a solver that is not there *)

(** An ASK_CALL for an id without an entry calls [Ask] on the nil interface
    value the lookup gives: the handler panics. *)
Lemma handleAskCall_registry_miss st m l msg :
  solvers st = Some m ->
  Unmarshal_AskCall l = inr msg ->
  m !! ask_SolverId msg = None ->
  handleAskCall l st = (Panicked NilPointerDereference, st).
Proof.
  intros Hm Hdec Hmiss. unfold handleAskCall. rewrite Hdec.
  unfold bind, map_index, Solver in *. now rewrite Hm, Hmiss.
Qed.

(** The same for a TELL_CALL. *)
Lemma handleTellCall_registry_miss st m l msg :
  solvers st = Some m ->
  Unmarshal_TellCall l = inr msg ->
  m !! tell_SolverId msg = None ->
  handleTellCall l st = (Panicked NilPointerDereference, st).
Proof.
  intros Hm Hdec Hmiss. unfold handleTellCall. rewrite Hdec.
  unfold bind, map_index, Solver in *. now rewrite Hm, Hmiss.
Qed.

(** * Further properties of the runner *)

(** ** What an iteration reads, prints and keeps *)

Lemma lines_read_app t1 t2 :
  lines_read (t1 ++ t2) = lines_read t1 ++ lines_read t2.
Proof. unfold lines_read. apply omap_app. Qed.

(** An iteration takes the lines it reads off the front of standard input,
    never asks the factory for its specification, prints at most one line
    and only after reading one, and keeps an allocated registry allocated,
    so that its only panic is the call on a nil solver. *)
Lemma runOnce_accounts st o st' :
  runOnce st = (o, st') ->
  exists t,
    trace st' = trace st ++ t
    /\ stdin st = lines_read t ++ stdin st'
    /\ Forall (fun e => is_Specification_call e = false) t
    /\ (length (printed t) <= length (lines_read t))%nat
    /\ (is_Some (solvers st) ->
        is_Some (solvers st')
        /\ forall p, o = Panicked p -> p = NilPointerDereference).
Proof.
  unfold runOnce, handleCreateSolverCast, handleDropSolverCast,
    handleAskCall, handleTellCall.
  intros H. run_monad.
  all: show_trace.
  all: eexists; split; [reflexivity|].
  all: split; [simpl; congruence|].
  all: split; [repeat constructor|].
  all: split; [simpl; lia|].
  all: intros Hsome; split;
    [ rewrite ?fmap_is_Some; eauto; destruct Hsome; congruence
    | intros p Hp; simplify_eq; try reflexivity;
      destruct Hsome; congruence ].
Qed.

Lemma Run_loop_accounts fuel : forall st out st',
  Run_loop fuel st = Some (out, st') ->
  exists t,
    trace st' = trace st ++ t
    /\ stdin st = lines_read t ++ stdin st'
    /\ Forall (fun e => is_Specification_call e = false) t
    /\ (length (printed t) <= length (lines_read t))%nat
    /\ (is_Some (solvers st) ->
        is_Some (solvers st')
        /\ forall p, out = Panicked p -> p = NilPointerDereference).
Proof.
  induction fuel as [|fuel IH]; intros st out st' Hrun; [discriminate|].
  simpl in Hrun.
  destruct (runOnce st) as [o st1] eqn:Honce.
  destruct (runOnce_accounts _ _ _ Honce)
    as (t1 & Htr & Hin & Hno & Hlen & Hreg).
  destruct o as [[[|] [err|]]|p]; simplify_eq;
    try (exists t1;
         do 4 (split; [assumption|]);
         intros Hsome; split;
         [ now apply (proj1 (Hreg Hsome))
         | intros q Hq;
           first [ discriminate Hq
                 | simplify_eq; now apply (proj2 (Hreg Hsome)) ] ]).
  destruct (IH _ _ _ Hrun) as (t2 & Htr2 & Hin2 & Hno2 & Hlen2 & Hreg2).
  exists (t1 ++ t2).
  split; [rewrite Htr2, Htr; now rewrite app_assoc|].
  split; [rewrite lines_read_app, <- app_assoc, <- Hin2; assumption|].
  split; [now apply Forall_app_2|].
  split; [rewrite printed_app, lines_read_app, !length_app; lia|].
  intros Hsome. apply Hreg2. now apply (proj1 (Hreg Hsome)).
Qed.

(** The same for a whole run, which starts by allocating the registry and
    asking the factory for its specification, and may print the handshake
    before the first read. *)
Lemma Run_accounts st out st' :
  Run st = Some (out, st') ->
  exists t,
    trace st' = trace st ++ EvSpecification :: t
    /\ stdin st = lines_read t ++ stdin st'
    /\ Forall (fun e => is_Specification_call e = false) t
    /\ (length (printed t) <= S (length (lines_read t)))%nat
    /\ is_Some (solvers st')
    /\ (forall p, out = Panicked p -> p = NilPointerDereference).
Proof.
  intros Hrun. unfold Run, Run_fuel in Hrun.
  pose proof (castSolverSpec_cases (set_solvers (Some ∅) st)) as Hcast.
  simpl in Hcast.
  destruct (Specification (world st)) as [[err|spec] w].
  - rewrite Hcast in Hrun. simplify_eq. exists []. simpl.
    repeat split; try constructor; try lia; eauto. discriminate.
  - destruct (Marshal (SOLVER_SPEC_CAST spec)) as [err|bytes].
    + rewrite Hcast in Hrun. simplify_eq. exists []. simpl.
      repeat split; try constructor; try lia; eauto. discriminate.
    + rewrite Hcast in Hrun.
      destruct (Run_loop_accounts _ _ _ _ Hrun)
        as (t & Htr & Hin & Hno & Hlen & Hreg).
      simpl in Htr, Hin, Hreg.
      exists (EvPrint (SOLVER_SPEC_CAST spec) bytes :: t).
      split; [rewrite Htr, <- !app_assoc; reflexivity|].
      split; [assumption|].
      split; [constructor; [reflexivity|assumption]|].
      split; [simpl; lia|].
      apply Hreg. eauto.
Qed.

(** ** Whole runs *)

(** The first thing [Run] does is ask the factory for its specification, and
    it never asks again. *)
Theorem Run_asks_for_the_specification_once st :
  exists out st' t,
    Run st = Some (out, st')
    /\ trace st' = trace st ++ EvSpecification :: t
    /\ Forall (fun e => is_Specification_call e = false) t.
Proof.
  destruct (Run_total st) as (out & st' & Hrun).
  destruct (Run_accounts _ _ _ Hrun) as (t & Htr & _ & Hno & _).
  exists out, st', t. repeat split; assumption.
Qed.

(** A run prints at most one line more than it has read lines: the
    handshake, and at most one reply for each request. *)
Theorem Run_prints_at_most_one_line_per_request st :
  exists out st' t,
    Run st = Some (out, st')
    /\ trace st' = trace st ++ t
    /\ stdout st' = stdout st ++ printed t
    /\ (length (printed t) <= S (length (lines_read t)))%nat.
Proof.
  destruct (Run_total st) as (out & st' & Hrun).
  destruct (Run_accounts _ _ _ Hrun) as (t & Htr & _ & _ & Hlen & _).
  exists out, st', (EvSpecification :: t).
  split; [assumption|]. split; [assumption|].
  split; [unfold stdout; now rewrite Htr, printed_app|].
  exact Hlen.
Qed.

(** [Run] allocates the registry before anything else: whatever the runner
    held before, the nil map that [NewSolverRunner] leaves included, the
    registry is an allocated map when the run ends, and the run has not
    panicked on the assignment of a solver to a nil map. *)
Theorem Run_allocates_the_registry st out st' :
  Run st = Some (out, st') ->
  is_Some (solvers st') /\ out <> Panicked NilMapAssignment.
Proof.
  intros Hrun.
  destruct (Run_accounts _ _ _ Hrun) as (t & _ & _ & _ & _ & Hreg & Hp).
  split; [assumption|].
  intros Hout. specialize (Hp _ Hout). discriminate.
Qed.

(** With nothing on standard input, a run whose handshake goes through
    prints the handshake, meets the end of the stream and returns no error. *)
Theorem Run_on_empty_input st spec w bytes :
  stdin st = [] ->
  stdin_end st = io_EOF ->
  Specification (world st) = (inr spec, w) ->
  Marshal (SOLVER_SPEC_CAST spec) = inr bytes ->
  exists st',
    Run st = Some (Returned None, st')
    /\ trace st'
       = trace st ++ [EvSpecification;
                      EvPrint (SOLVER_SPEC_CAST spec) bytes;
                      EvReadLine (inl io_EOF)]
    /\ solvers st' = Some ∅.
Proof.
  intros Hin Hend Hspec Henc.
  unfold Run, Run_fuel.
  pose proof (castSolverSpec_cases (set_solvers (Some ∅) st)) as Hcast.
  simpl in Hcast. rewrite Hspec, Henc in Hcast. rewrite Hcast, Hin.
  simpl. unfold runOnce, bind, readLine. simpl. rewrite Hin, Hend.
  eexists. split; [reflexivity|]. simpl.
  split; [now rewrite <- !app_assoc|reflexivity].
Qed.

(** ** Lines that cannot be served *)

(** A line that is not JSON (or not a JSON object) ends the run with the
    decoder's error: the line has been read, nothing is printed, no
    capability object is called and the lines after it stay unread. *)
Theorem invalid_json_line_ends_the_run fuel st l rest err :
  stdin st = l :: rest ->
  Unmarshal_type l = inl err ->
  Run_loop (S fuel) st
  = Some (Returned (Some err), log (EvReadLine (inr l)) (set_stdin rest st)).
Proof.
  intros Hin Hty. simpl. unfold runOnce, bind, readLine.
  now rewrite Hin, Hty.
Qed.

(** A read that fails with anything but [io.EOF] ends the run with that
    error. *)
Theorem read_error_ends_the_run fuel st msg :
  stdin st = [] ->
  stdin_end st = errorString msg ->
  Run_loop (S fuel) st
  = Some (Returned (Some (errorString msg)),
          log (EvReadLine (inl (errorString msg))) st).
Proof.
  intros Hin Hend. simpl. unfold runOnce, bind, readLine.
  now rewrite Hin, Hend.
Qed.

(** A request of a known type whose fields do not decode ends the run with
    the decoder's error before the registry is consulted or a capability
    object called: the state is the one after the read. *)
Theorem undecodable_request_ends_the_run fuel st l rest err :
  stdin st = l :: rest ->
  (Unmarshal_type l = inr (TypeString "CREATE_SOLVER_CAST")
   /\ Unmarshal_CreateSolverCast l = inl err)
  \/ (Unmarshal_type l = inr (TypeString "DROP_SOLVER_CAST")
      /\ Unmarshal_DropSolverCast l = inl err)
  \/ (Unmarshal_type l = inr (TypeString "ASK_CALL")
      /\ Unmarshal_AskCall l = inl err)
  \/ (Unmarshal_type l = inr (TypeString "TELL_CALL")
      /\ Unmarshal_TellCall l = inl err) ->
  Run_loop (S fuel) st
  = Some (Returned (Some err), log (EvReadLine (inr l)) (set_stdin rest st)).
Proof.
  intros Hin Hcases. simpl. unfold runOnce, bind, readLine. rewrite Hin.
  destruct Hcases as [[Hty Hdec]|[[Hty Hdec]|[[Hty Hdec]|[Hty Hdec]]]];
    rewrite Hty; simpl.
  - unfold handleCreateSolverCast. now rewrite Hdec.
  - unfold handleDropSolverCast. now rewrite Hdec.
  - unfold handleAskCall. now rewrite Hdec.
  - unfold handleTellCall. now rewrite Hdec.
Qed.

(** ** Calls *)

(** A TELL_CALL for a live solver whose [Tell] accepts the trial: [Tell] is
    called once with the decoded trial, exactly one TELL_REPLY is printed,
    no error is returned and the registry is as before. *)
Theorem tell_call_is_acknowledged st m l msg s w' bytes :
  solvers st = Some m ->
  Unmarshal_TellCall l = inr msg ->
  m !! tell_SolverId msg = Some (Some s) ->
  Tell s (tell_Trial msg) (world st) = (None, w') ->
  Marshal TELL_REPLY = inr bytes ->
  exists st',
    handleTellCall l st = (Returned None, st')
    /\ trace st'
       = trace st ++ [EvTell s (tell_Trial msg); EvPrint TELL_REPLY bytes]
    /\ solvers st' = Some m
    /\ world st' = w'.
Proof.
  intros Hm Hdec Hlive Htell Henc.
  unfold handleTellCall. rewrite Hdec.
  unfold bind, map_index. rewrite Hm, Hlive. simpl. rewrite Htell.
  unfold sendMessage. rewrite Henc.
  eexists. split; [reflexivity|]. simpl.
  split; [now rewrite <- app_assoc|]. split; [assumption|reflexivity].
Qed.

(** However an ASK_CALL or a TELL_CALL ends (reply, error or panic), the
    registry and the lines waiting on standard input are as before. *)
Theorem calls_keep_the_registry l st :
  (solvers (handleAskCall l st).2 = solvers st
   /\ stdin (handleAskCall l st).2 = stdin st)
  /\ (solvers (handleTellCall l st).2 = solvers st
      /\ stdin (handleTellCall l st).2 = stdin st).
Proof.
  unfold handleAskCall, handleTellCall.
  split; run_monad; split; simpl; congruence.
Qed.

(** However a CREATE_SOLVER_CAST or a DROP_SOLVER_CAST ends, nothing is
    printed for it. *)
Theorem casts_print_nothing l st :
  stdout (handleCreateSolverCast l st).2 = stdout st
  /\ stdout (handleDropSolverCast l st).2 = stdout st.
Proof.
  unfold handleCreateSolverCast, handleDropSolverCast, stdout.
  split; run_monad; try reflexivity;
    rewrite printed_app; simpl; now rewrite app_nil_r.
Qed.

(** ** Sequences of requests *)

(** The state a create leaves when the factory serves it. *)
Lemma handleCreateSolverCast_served st m l cmsg solver w1 :
  solvers st = Some m ->
  Unmarshal_CreateSolverCast l = inr cmsg ->
  CreateSolver (int64_of_uint64 (create_RandomSeed cmsg)) (create_Problem cmsg)
    (world st) = (inr solver, w1) ->
  handleCreateSolverCast l st
  = (Returned None,
     set_solvers (Some (<[create_SolverId cmsg := solver]> m))
       (set_world w1
          (log (EvCreateSolver (int64_of_uint64 (create_RandomSeed cmsg))
                  (create_Problem cmsg)) st))).
Proof.
  intros Hm Hc Hnew.
  unfold handleCreateSolverCast. rewrite Hc.
  unfold bind, factory_CreateSolver. rewrite Hnew.
  unfold map_assign. simpl. now rewrite Hm.
Qed.

(** After a create that the factory serves with a solver, an ASK_CALL naming
    the same id is answered by that solver: its [Ask] is the next call made,
    with a generator seeded at the request's [next_trial_id]. *)
Theorem create_then_ask_reaches_the_new_solver st m l1 l2 cmsg amsg s w1 :
  solvers st = Some m ->
  Unmarshal_CreateSolverCast l1 = inr cmsg ->
  CreateSolver (int64_of_uint64 (create_RandomSeed cmsg)) (create_Problem cmsg)
    (world st) = (inr (Some s), w1) ->
  Unmarshal_AskCall l2 = inr amsg ->
  ask_SolverId amsg = create_SolverId cmsg ->
  exists st1 t,
    handleCreateSolverCast l1 st = (Returned None, st1)
    /\ trace (handleAskCall l2 st1).2
       = trace st1 ++ EvAsk s (mkIdg (ask_NextTrialId amsg)) :: t.
Proof.
  intros Hm Hc Hnew Ha Hid.
  rewrite (handleCreateSolverCast_served _ _ _ _ _ _ Hm Hc Hnew).
  eexists.
  assert (Hask : exists t,
    trace (handleAskCall l2
             (set_solvers (Some (<[create_SolverId cmsg := Some s]> m))
                (set_world w1
                   (log (EvCreateSolver
                           (int64_of_uint64 (create_RandomSeed cmsg))
                           (create_Problem cmsg)) st)))).2
    = (trace st ++ [EvCreateSolver (int64_of_uint64 (create_RandomSeed cmsg))
                      (create_Problem cmsg)])
      ++ EvAsk s (mkIdg (ask_NextTrialId amsg)) :: t).
  { unfold handleAskCall. rewrite Ha.
    unfold bind, map_index, Solver in *. simpl.
    rewrite Hid, lookup_insert_eq. simpl.
    destruct (Ask s (mkIdg (ask_NextTrialId amsg)) w1)
      as [[[err|trial] idg'] w2]; simpl.
    - exists []. reflexivity.
    - unfold sendMessage.
      destruct (Marshal (ASK_REPLY trial (NextId idg'))) as [err|bytes]; simpl.
      + exists []. reflexivity.
      + eexists. now rewrite <- app_assoc. }
  destruct Hask as [t Ht]. exists t. split; [reflexivity|exact Ht].
Qed.

(** After a drop, an ASK_CALL or a TELL_CALL naming the dropped id panics on
    the nil solver the registry gives, whatever the registry held. *)
Theorem call_after_drop_panics st m l1 dmsg :
  solvers st = Some m ->
  Unmarshal_DropSolverCast l1 = inr dmsg ->
  exists st1,
    handleDropSolverCast l1 st = (Returned None, st1)
    /\ (forall l2 amsg,
          Unmarshal_AskCall l2 = inr amsg ->
          ask_SolverId amsg = drop_SolverId dmsg ->
          handleAskCall l2 st1 = (Panicked NilPointerDereference, st1))
    /\ (forall l2 tmsg,
          Unmarshal_TellCall l2 = inr tmsg ->
          tell_SolverId tmsg = drop_SolverId dmsg ->
          handleTellCall l2 st1 = (Panicked NilPointerDereference, st1)).
Proof.
  intros Hm Hd.
  unfold handleDropSolverCast. rewrite Hd.
  unfold bind, map_delete, ret. rewrite Hm. simpl.
  eexists. split; [reflexivity|]. split.
  - intros l2 amsg Ha Hid.
    apply (handleAskCall_registry_miss _ (delete (drop_SolverId dmsg) m) _ amsg);
      [reflexivity|assumption|].
    rewrite Hid. apply lookup_delete_eq.
  - intros l2 tmsg Ht Hid.
    apply (handleTellCall_registry_miss _ (delete (drop_SolverId dmsg) m) _ tmsg);
      [reflexivity|assumption|].
    rewrite Hid. apply lookup_delete_eq.
Qed.

(** When the factory returns a nil [Solver] with a nil error, the create
    goes through and registers nil under the id; an ASK_CALL naming that id
    then panics. *)
Theorem nil_solver_is_registered_and_panics_later st m l1 cmsg w1 :
  solvers st = Some m ->
  Unmarshal_CreateSolverCast l1 = inr cmsg ->
  CreateSolver (int64_of_uint64 (create_RandomSeed cmsg)) (create_Problem cmsg)
    (world st) = (inr None, w1) ->
  exists st1,
    handleCreateSolverCast l1 st = (Returned None, st1)
    /\ solvers st1 = Some (<[create_SolverId cmsg := None]> m)
    /\ (forall l2 amsg,
          Unmarshal_AskCall l2 = inr amsg ->
          ask_SolverId amsg = create_SolverId cmsg ->
          handleAskCall l2 st1 = (Panicked NilPointerDereference, st1)).
Proof.
  intros Hm Hc Hnew.
  rewrite (handleCreateSolverCast_served _ _ _ _ _ _ Hm Hc Hnew).
  eexists. split; [reflexivity|]. split; [reflexivity|].
  intros l2 amsg Ha Hid.
  unfold handleAskCall. rewrite Ha.
  unfold bind, map_index, Solver in *. simpl.
  now rewrite Hid, lookup_insert_eq.
Qed.

(** A create under an id that had no entry, followed by a drop of that id,
    leaves the registry as it was before the two, and prints nothing. *)
Theorem create_then_drop_restores_the_registry
    st m l1 l2 cmsg dmsg solver w1 :
  solvers st = Some m ->
  m !! create_SolverId cmsg = None ->
  Unmarshal_CreateSolverCast l1 = inr cmsg ->
  CreateSolver (int64_of_uint64 (create_RandomSeed cmsg)) (create_Problem cmsg)
    (world st) = (inr solver, w1) ->
  Unmarshal_DropSolverCast l2 = inr dmsg ->
  drop_SolverId dmsg = create_SolverId cmsg ->
  exists st1 st2,
    handleCreateSolverCast l1 st = (Returned None, st1)
    /\ handleDropSolverCast l2 st1 = (Returned None, st2)
    /\ solvers st2 = Some m
    /\ stdout st2 = stdout st.
Proof.
  intros Hm Hfresh Hc Hnew Hd Hid.
  rewrite (handleCreateSolverCast_served _ _ _ _ _ _ Hm Hc Hnew).
  eexists. unfold handleDropSolverCast. rewrite Hd.
  unfold bind, map_delete, ret. simpl.
  eexists. split; [reflexivity|]. split; [reflexivity|]. simpl.
  split.
  - rewrite Hid. f_equal. now apply delete_insert_id.
  - unfold stdout. simpl. rewrite printed_app. simpl. now rewrite app_nil_r.
Qed.

(** ** The seed conversion *)

(** [int64(u)] of a [uint64] is an [int64], and converting it back gives
    [u]: distinct seeds in the message reach the factory as distinct
    seeds. *)
Theorem int64_of_uint64_round_trip u :
  in_uint64 u ->
  - 2 ^ 63 <= int64_of_uint64 u < 2 ^ 63
  /\ uint64_wrap (int64_of_uint64 u) = u.
Proof.
  intros Hu. unfold uint64_wrap.
  destruct (Z.lt_ge_cases u (2 ^ 63)) as [Hlt|Hge].
  - rewrite int64_of_uint64_low by assumption.
    unfold in_uint64 in Hu. split; [lia|]. apply Z.mod_small. lia.
  - rewrite int64_of_uint64_high by assumption.
    unfold in_uint64 in Hu. split; [lia|].
    replace (u - 2 ^ 64) with (u + (-1) * 2 ^ 64) by lia.
    rewrite Z.mod_add by lia. apply Z.mod_small. lia.
Qed.

End Properties.

(** * The properties on the plugin *)

Import Plugin.
#[local] Existing Instances payloads capability json.

(** C1. After CREATE_SOLVER_CAST and DROP_SOLVER_CAST of id 1, an ASK_CALL
    (and likewise a TELL_CALL) naming id 1 makes the run panic on a nil
    [Solver]: [Run] returns no error at all, and only the handshake has been
    printed. *)
Theorem C1_call_after_drop_panics :
  finish (start true [CreateLine 1 42; DropLine 1; AskLine 1 100])
  = Some (Panicked NilPointerDereference, [handshake], [])
  /\ finish (start true [CreateLine 1 42; DropLine 1; TellLine 1 100])
     = Some (Panicked NilPointerDereference, [handshake], []).
Proof. split; vm_compute; reflexivity. Qed.

(** The factory refuses the first create (seed 0); the create and the ask
    after it, which are served when they come alone, are then never read. *)
Lemma C2_counterexample_later_messages_unread :
  finish (start true [CreateLine 1 0; CreateLine 2 1; AskLine 2 100])
  = Some (Returned (Some (errorString "unsupported configuration")),
          [handshake], [CreateLine 2 1; AskLine 2 100])
  /\ finish (start true [CreateLine 2 1; AskLine 2 100])
     = Some (Returned None, [handshake; ask_reply 100 101], []).
Proof. split; vm_compute; reflexivity. Qed.

Lemma C2_witness :
  exists st',
    Run_loop 1 (holding ∅ [CreateLine 1 0; CreateLine 2 1; AskLine 2 100])
    = Some (Returned (Some (errorString "unsupported configuration")), st')
    /\ solvers st' = Some ∅
    /\ stdout st' = []
    /\ stdin st' = [CreateLine 2 1; AskLine 2 100].
Proof.
  apply (C2_create_failure_ends_the_run 0%nat
           (holding ∅ [CreateLine 1 0; CreateLine 2 1; AskLine 2 100])
           (CreateLine 1 0) [CreateLine 2 1; AskLine 2 100]
           (create_message 1 0)
           (errorString "unsupported configuration")
           (mkPWorld true 1));
    reflexivity.
Defined.

(** Solver 7 takes one id from a generator at 100 and returns a trial
    labelled 7: the reply carries 101 and a trial whose id is not in
    [[100, 101)]. Solver 42 takes one id from a generator at 2^64 - 1: the
    reply carries 0, not 2^64. *)
Lemma C3_counterexample_id_outside_range :
  run_AskBody (ask_body 7 (mkPWorld true 0)) (mkIdg 100) []
  = (inr 7, mkIdg 101, mkPWorld true 1, [100])
  /\ ask 7 (mkIdg 100) (mkPWorld true 0) = (inr 7, mkIdg 101, mkPWorld true 1)
  /\ stdout (handleAskCall (AskLine 1 100) (holding {[1 := Some 7]} [])).2
     = [ask_reply 7 101]
  /\ ~ (100 <= @TrialId payloads 7 < 100 + 1)
  /\ run_AskBody (ask_body 42 (mkPWorld true 0)) (mkIdg (2 ^ 64 - 1)) []
     = (inr (2 ^ 64 - 1), mkIdg 0, mkPWorld true 1, [2 ^ 64 - 1])
  /\ stdout (handleAskCall (AskLine 1 (2 ^ 64 - 1))
               (holding {[1 := Some 42]} [])).2
     = [ask_reply (2 ^ 64 - 1) 0]
  /\ 0 <> (2 ^ 64 - 1) + 1.
Proof.
  repeat split; try (vm_compute; reflexivity).
  - simpl. lia.
  - lia.
Qed.

Lemma C3_witness :
  exists st',
    handleAskCall (AskLine 1 100) (holding {[1 := Some 42]} [])
    = (Returned None, st')
    /\ stdout st' = [ask_reply 100 101]
    /\ 100 <= @TrialId payloads 100 < 100 + 1.
Proof.
  destruct (C3_ask_reply_carries_final_counter
              (holding {[1 := Some 42]} []) {[1 := Some 42]}
              (AskLine 1 100) (mkAskCall 1 100) 42
              (ask_body 42 (mkPWorld true 0)) 100 (mkIdg 101)
              (mkPWorld true 1) [100] (Out (ask_reply 100 101)))
    as (st' & Hrun & _ & _ & Hout & _ & Hid); [reflexivity ..|].
  exists st'. split; [exact Hrun|]. split; [exact Hout|].
  apply Hid; [apply list_elem_of_singleton; reflexivity | simpl; lia].
Defined.

(** A factory that cannot describe itself: the run prints nothing, reads
    nothing, and returns the factory's error. *)
Lemma C4_counterexample_no_handshake :
  finish (start false [CreateLine 1 42; AskLine 1 100])
  = Some (Returned (Some (errorString "no specification")),
          [], [CreateLine 1 42; AskLine 1 100]).
Proof. vm_compute. reflexivity. Qed.

Lemma C5_witness :
  exists st',
    Run_loop 1 (holding {[1 := Some 42]} [BogusLine; AskLine 1 100])
    = Some (Returned (Some (errorString "unknown message type: BOGUS")), st')
    /\ trace st' = [EvReadLine (inr BogusLine)]
    /\ stdout st' = []
    /\ stdin st' = [AskLine 1 100]
    /\ solvers st' = Some {[1 := Some 42]}.
Proof.
  apply (C5_unknown_type_ends_the_run 0%nat
           (holding {[1 := Some 42]} [BogusLine; AskLine 1 100])
           BogusLine [AskLine 1 100] (TypeString "BOGUS"));
    solve [reflexivity | discriminate].
Defined.

Lemma C6_witness :
  (exists st',
     Run_loop 1 (holding {[1 := Some 42]} []) = Some (Returned None, st')
     /\ trace st' = [EvReadLine (inl io_EOF)]
     /\ stdout st' = []
     /\ solvers st' = Some {[1 := Some 42]})
  /\ (exists st',
        Run (start true
               [CreateLine 1 42; AskLine 1 100; TellLine 1 100; DropLine 1])
        = Some (Returned None, st')
        /\ last (trace st') = Some (EvReadLine (inl io_EOF))
        /\ stdin st' = []).
Proof.
  split.
  - destruct (proj1 (C6_stopped_exactly_at_end_of_stream
                       (holding {[1 := Some 42]} []))
                eq_refl eq_refl 0%nat)
      as (st' & Hrun & Htrace & Hout & Hreg & _).
    exists st'. repeat split; assumption.
  - eexists.
    refine ((fun H =>
               match proj2 (C6_stopped_exactly_at_end_of_stream _) _ _ H with
               | conj Hiff Hend =>
                   conj H (conj (proj1 Hiff eq_refl) (proj1 (Hend eq_refl)))
               end) _).
    reflexivity.
Defined.

(** The plugin's factory hands out one solver per seed. Asked for seed 42
    again under id 1, it returns the instance already there; and when that
    instance is also held under id 2, a create of another solver under id 1
    leaves it reachable under id 2. *)
Lemma C7_counterexample_old_instance_still_reachable :
  (exists st' m',
     handleCreateSolverCast (CreateLine 1 42) (holding {[1 := Some 42]} [])
     = (Returned None, st')
     /\ solvers st' = Some m'
     /\ m' !! 1 = Some (Some 42))
  /\ (exists st' m',
        handleCreateSolverCast (CreateLine 1 43)
          (holding (<[2 := Some 42]> {[1 := Some 42]}) [])
        = (Returned None, st')
        /\ solvers st' = Some m'
        /\ m' !! 2 = Some (Some 42)).
Proof.
  split; eexists _, _; (split; [reflexivity|]); (split; [reflexivity|]);
    vm_compute; reflexivity.
Qed.

Lemma C7_witness :
  exists st' m',
    handleCreateSolverCast (CreateLine 1 43)
      (holding (<[2 := Some 7]> {[1 := Some 42]}) [])
    = (Returned None, st')
    /\ solvers st' = Some m'
    /\ stdout st' = []
    /\ m' !! 1 = Some (Some 43)
    /\ m' !! 2 = Some (Some 7)
    /\ (forall j : Z, m' !! j <> Some (Some 42)).
Proof.
  destruct (C7_create_overwrites_the_entry
              (holding (<[2 := Some 7]> {[1 := Some 42]}) [])
              (<[2 := Some 7]> {[1 := Some 42]})
              (CreateLine 1 43) (create_message 1 43)
              (Some 42) (Some 43) (mkPWorld true 1))
    as (st' & m' & Hrun & Hreg & Hout & Hnew & Hother & Hold);
    [reflexivity ..|].
  exists st', m'. split; [exact Hrun|]. split; [exact Hreg|].
  split; [exact Hout|]. split; [exact Hnew|].
  split; [refine (eq_trans (Hother 2 _) _); [discriminate|reflexivity]|].
  intros j Hj. apply Hold in Hj as [[_ Heq]|[Hne Hj]]; [discriminate|].
  simpl in Hne.
  destruct (decide (j = 2)) as [->|Hne2].
  - vm_compute in Hj. discriminate.
  - rewrite lookup_insert_ne in Hj by congruence.
    rewrite lookup_singleton_ne in Hj; [discriminate|].
    intros Heq. apply Hne. rewrite <- Heq. reflexivity.
Defined.

Lemma C8_witness :
  (exists st',
     handleAskCall (AskLine 1 100) (holding {[1 := Some 13]} [])
     = (Returned (Some (errorString "search space exhausted")), st')
     /\ solvers st' = Some {[1 := Some 13]} /\ stdout st' = [])
  /\ (exists st',
        handleTellCall (TellLine 1 (-1)) (holding {[1 := Some 13]} [])
        = (Returned (Some (errorString "unknown trial")), st')
        /\ solvers st' = Some {[1 := Some 13]} /\ stdout st' = []).
Proof.
  destruct (C8_ask_tell_failure_keeps_registry
              (holding {[1 := Some 13]} []) {[1 := Some 13]})
    as [Hask Htell]; [reflexivity|].
  split.
  - apply (Hask (AskLine 1 100) (mkAskCall 1 100) 13
             (errorString "search space exhausted") (mkIdg 100)
             (mkPWorld true 1)); reflexivity.
  - apply (Htell (TellLine 1 (-1)) (tell_message 1 (-1)) 13
             (errorString "unknown trial") (mkPWorld true 1)); reflexivity.
Defined.

Lemma C9_witness :
  (exists st' m',
     handleDropSolverCast (DropLine 1)
       (holding (<[2 := Some 7]> {[1 := Some 42]}) [])
     = (Returned None, st')
     /\ solvers st' = Some m'
     /\ stdout st' = []
     /\ m' !! 1 = None
     /\ m' !! 2 = Some (Some 7))
  /\ (exists st',
        handleDropSolverCast (DropLine 3)
          (holding (<[2 := Some 7]> {[1 := Some 42]}) [])
        = (Returned None, st')
        /\ solvers st' = Some (<[2 := Some 7]> {[1 := Some 42]})
        /\ stdout st' = []).
Proof.
  split.
  - destruct (C9_drop_removes_or_is_noop
                (holding (<[2 := Some 7]> {[1 := Some 42]}) [])
                (<[2 := Some 7]> {[1 := Some 42]})
                (DropLine 1) (mkDropSolverCast 1))
      as (st' & m' & Hrun & Hreg & _ & Hout & _ & _ & Hgone & Hother & _);
      [reflexivity ..|].
    exists st', m'. split; [exact Hrun|]. split; [exact Hreg|].
    split; [exact Hout|]. split; [exact Hgone|].
    refine (eq_trans (Hother 2 _) _); [discriminate|reflexivity].
  - destruct (C9_drop_removes_or_is_noop
                (holding (<[2 := Some 7]> {[1 := Some 42]}) [])
                (<[2 := Some 7]> {[1 := Some 42]})
                (DropLine 3) (mkDropSolverCast 3))
      as (st' & m' & Hrun & Hreg & _ & Hout & _ & _ & _ & _ & Hnoop);
      [reflexivity ..|].
    exists st'. split; [exact Hrun|]. split; [|exact Hout].
    rewrite Hreg. f_equal. apply Hnoop. reflexivity.
Defined.


(** * The further properties on the plugin *)

Lemma Run_allocates_the_registry_witness :
  exists st',
    Run (start true [CreateLine 1 42; AskLine 1 100])
    = Some (Returned None, st')
    /\ (is_Some (solvers st')
        /\ Returned None <> Panicked (A := option error) NilMapAssignment).
Proof.
  eexists.
  refine ((fun H => conj H (Run_allocates_the_registry _ _ _ H)) _).
  reflexivity.
Defined.

Lemma Run_on_empty_input_witness :
  exists st',
    Run (start true []) = Some (Returned None, st')
    /\ trace st'
       = [EvSpecification; EvPrint handshake (Out handshake);
          EvReadLine (inl io_EOF)]
    /\ solvers st' = Some ∅.
Proof.
  apply (Run_on_empty_input (start true []) (Some (NewSolverSpec "plugin"))
           (mkPWorld true 1) (Out handshake));
    reflexivity.
Defined.

Lemma invalid_json_line_ends_the_run_witness :
  Run_loop 1 (holding {[1 := Some 42]} [NotJson; AskLine 1 100])
  = Some (Returned (Some (errorString "invalid character")),
          log (EvReadLine (inr NotJson))
            (set_stdin [AskLine 1 100]
               (holding {[1 := Some 42]} [NotJson; AskLine 1 100]))).
Proof.
  apply (invalid_json_line_ends_the_run 0%nat
           (holding {[1 := Some 42]} [NotJson; AskLine 1 100])
           NotJson [AskLine 1 100] (errorString "invalid character"));
    reflexivity.
Defined.

Lemma read_error_ends_the_run_witness :
  Run_loop 1
    (@mkState payloads capability Line (Some ∅) (mkPWorld true 1) []
       (errorString "broken pipe") [])
  = Some (Returned (Some (errorString "broken pipe")),
          log (EvReadLine (inl (errorString "broken pipe")))
            (@mkState payloads capability Line (Some ∅) (mkPWorld true 1) []
               (errorString "broken pipe") [])).
Proof.
  apply (read_error_ends_the_run 0%nat
           (@mkState payloads capability Line (Some ∅) (mkPWorld true 1) []
              (errorString "broken pipe") [])
           "broken pipe");
    reflexivity.
Defined.

Lemma undecodable_request_ends_the_run_witness :
  Run_loop 1 (holding ∅ [CreateLine 1 (2 ^ 64); AskLine 1 100])
  = Some (Returned
            (Some (errorString
                     "cannot unmarshal number into Go struct field of type uint64")),
          log (EvReadLine (inr (CreateLine 1 (2 ^ 64))))
            (set_stdin [AskLine 1 100]
               (holding ∅ [CreateLine 1 (2 ^ 64); AskLine 1 100]))).
Proof.
  apply (undecodable_request_ends_the_run 0%nat
           (holding ∅ [CreateLine 1 (2 ^ 64); AskLine 1 100])
           (CreateLine 1 (2 ^ 64)) [AskLine 1 100]);
    [reflexivity|].
  left. split; reflexivity.
Defined.

Lemma tell_call_is_acknowledged_witness :
  exists st',
    handleTellCall (TellLine 1 5) (holding {[1 := Some 42]} [])
    = (Returned None, st')
    /\ trace st' = [EvTell 42 5; EvPrint TELL_REPLY (Out TELL_REPLY)]
    /\ solvers st' = Some {[1 := Some 42]}
    /\ world st' = mkPWorld true 1.
Proof.
  apply (tell_call_is_acknowledged
           (holding {[1 := Some 42]} []) {[1 := Some 42]}
           (TellLine 1 5) (tell_message 1 5) 42 (mkPWorld true 1)
           (Out TELL_REPLY));
    reflexivity.
Defined.

Lemma create_then_ask_reaches_the_new_solver_witness :
  exists st1 t,
    handleCreateSolverCast (CreateLine 1 42) (holding ∅ [])
    = (Returned None, st1)
    /\ trace (handleAskCall (AskLine 1 100) st1).2
       = trace st1 ++ EvAsk 42 (mkIdg 100) :: t.
Proof.
  apply (create_then_ask_reaches_the_new_solver
           (holding ∅ []) ∅ (CreateLine 1 42) (AskLine 1 100)
           (create_message 1 42) (mkAskCall 1 100) 42 (mkPWorld true 1));
    reflexivity.
Defined.

Lemma call_after_drop_panics_witness :
  exists st1,
    handleDropSolverCast (DropLine 1) (holding {[1 := Some 42]} [])
    = (Returned None, st1)
    /\ handleAskCall (AskLine 1 100) st1 = (Panicked NilPointerDereference, st1)
    /\ handleTellCall (TellLine 1 5) st1 = (Panicked NilPointerDereference, st1).
Proof.
  destruct (call_after_drop_panics
              (holding {[1 := Some 42]} []) {[1 := Some 42]}
              (DropLine 1) (mkDropSolverCast 1))
    as (st1 & Hdrop & Hask & Htell); [reflexivity ..|].
  exists st1. split; [exact Hdrop|]. split.
  - apply (Hask (AskLine 1 100) (mkAskCall 1 100)); reflexivity.
  - apply (Htell (TellLine 1 5) (tell_message 1 5)); reflexivity.
Defined.

Lemma nil_solver_is_registered_and_panics_later_witness :
  exists st1,
    handleCreateSolverCast (CreateLine 1 42) (Careless.holding ∅ [])
    = (Returned None, st1)
    /\ solvers st1 = Some (<[1 := None]> ∅)
    /\ handleAskCall (AskLine 1 100) st1 = (Panicked NilPointerDereference, st1).
Proof.
  destruct (nil_solver_is_registered_and_panics_later
              (Careless.holding ∅ []) ∅ (CreateLine 1 42)
              (create_message 1 42) tt)
    as (st1 & Hcreate & Hreg & Hask); [reflexivity ..|].
  exists st1. split; [exact Hcreate|]. split; [exact Hreg|].
  apply (Hask (AskLine 1 100) (mkAskCall 1 100)); reflexivity.
Defined.

Lemma create_then_drop_restores_the_registry_witness :
  exists st1 st2,
    handleCreateSolverCast (CreateLine 1 42) (holding {[2 := Some 7]} [])
    = (Returned None, st1)
    /\ handleDropSolverCast (DropLine 1) st1 = (Returned None, st2)
    /\ solvers st2 = Some {[2 := Some 7]}
    /\ stdout st2 = [].
Proof.
  apply (create_then_drop_restores_the_registry
           (holding {[2 := Some 7]} []) {[2 := Some 7]}
           (CreateLine 1 42) (DropLine 1)
           (create_message 1 42) (mkDropSolverCast 1)
           (Some 42) (mkPWorld true 1));
    reflexivity.
Defined.

Lemma int64_of_uint64_round_trip_witness :
  - 2 ^ 63 <= int64_of_uint64 (2 ^ 64 - 1) < 2 ^ 63
  /\ uint64_wrap (int64_of_uint64 (2 ^ 64 - 1)) = 2 ^ 64 - 1.
Proof.
  apply (int64_of_uint64_round_trip (2 ^ 64 - 1)).
  unfold in_uint64. simpl. lia.
Defined.
